(** * Plans: reading a plan, its logs and its JSON output (plan.go)

    A shallow embedding of [plan.go].  The methods of [plans] talk to a remote
    service through the client; here that is explicit state passing over a
    [World] that holds the remote side and a record of every call that was
    made on the client. *)

From Stdlib Require Import String Ascii List ZArith Bool Lia.
From Stdlib Require Import Strings.Byte.
Import ListNotations.
Open Scope string_scope.

Set Implicit Arguments.

(** ** Errors and Go's [(value, error)] results *)

(** Go's [error] values that the file can produce or pass on. *)
Inductive error : Type :=
| ErrInvalidPlanID                              (* the package's sentinel *)
| EOF                                           (* io.EOF *)
| Errorf (msg : string)                         (* fmt.Errorf without %w *)
| Wrapf (prefix : string) (inner : error)       (* fmt.Errorf(prefix + "%w", inner) *)
| Foreign (origin : string) (msg : string).     (* an error made by a collaborator *)

(** [errors.Unwrap]. *)
Definition Unwrap (e : error) : option error :=
  match e with
  | Wrapf _ inner => Some inner
  | _ => None
  end.

(** A Go result [(v, err)] of which exactly one side is non-nil:
    [Ok v] is [(v, nil)] and [Err e] is [(nil, e)]. *)
Inductive result (A : Type) : Type :=
| Ok (v : A)
| Err (e : error).
Arguments Ok {A} v.
Arguments Err {A} e.

(** ** Data model *)

(** [type PlanStatus string]. *)
Definition PlanStatus : Type := string.

Definition PlanCanceled    : PlanStatus := "canceled".
Definition PlanCreated     : PlanStatus := "created".
Definition PlanErrored     : PlanStatus := "errored".
Definition PlanFinished    : PlanStatus := "finished".
Definition PlanMFAWaiting  : PlanStatus := "mfa_waiting".
Definition PlanPending     : PlanStatus := "pending".
Definition PlanQueued      : PlanStatus := "queued".
Definition PlanRunning     : PlanStatus := "running".
Definition PlanUnreachable : PlanStatus := "unreachable".

(** The [const ( ... )] block, in declaration order. *)
Definition plan_status_constants : list PlanStatus :=
  [ PlanCanceled; PlanCreated; PlanErrored; PlanFinished; PlanMFAWaiting;
    PlanPending; PlanQueued; PlanRunning; PlanUnreachable ].

(** The enumeration as the specification's data model words it. *)
Definition spec_status_enumeration : list PlanStatus :=
  [ "queued"; "pending"; "running"; "mfa-waiting";
    "finished"; "errored"; "canceled"; "unreachable" ].

(** [time.Time], as seconds since the epoch. *)
Definition Time : Type := Z.

Record PlanStatusTimestamps : Type := {
  CanceledAt      : Time;
  ErroredAt       : Time;
  FinishedAt      : Time;
  ForceCanceledAt : Time;
  QueuedAt        : Time;
  StartedAt       : Time
}.

(** [Exports] holds the related exports by identifier. *)
Record Plan : Type := {
  ID                     : string;
  HasChanges             : bool;
  GeneratedConfiguration : bool;
  LogReadURL             : string;
  ResourceAdditions      : Z;
  ResourceChanges_count  : Z;   (* field ResourceChanges of Plan *)
  ResourceDestructions   : Z;
  ResourceImports        : Z;
  Status                 : PlanStatus;
  StatusTimestamps       : option PlanStatusTimestamps;
  Exports                : list string
}.

(** A decoded [interface{}]. *)
#[local] Set Warnings "-register-all".
Inductive JSON : Type :=
| JNull
| JBool (b : bool)
| JNumber (literal : string)
| JString (s : string)
| JArray (items : list JSON)
| JObject (members : list (string * JSON)).

Record Change : Type := {
  Actions         : list string;
  After           : JSON;
  AfterSensitive  : JSON;
  AfterUnknown    : JSON;
  Before          : JSON;
  BeforeSensitive : JSON
}.

Record ResourceChange : Type := {
  Address      : string;
  Change_      : Change;        (* field Change *)
  Index        : JSON;
  Mode         : string;
  Name         : string;
  ProviderName : string;
  Type_        : string         (* field Type *)
}.

Record PlanResourceChanges : Type := {
  ResourceChanges : list ResourceChange
}.

(** A request built by the client. *)
Record Request : Type := {
  Method : string;
  Path   : string
}.

(** ** Collaborators

    What [plan.go] calls but does not define: the identifier check, the
    client's request plumbing, and the standard library's URL and JSON
    parsers.  [Server] is the state of everything on the far side of the
    client: the transport and the remote service; a call on the client takes
    it and gives it back.

    Each method passes its [ctx] on to [req.Do] as it got it, and [Logs]
    stores [s.client] and [ctx] in the reader as they are.  Both belong to
    the collaborators here: [doResource req] stands for [req.Do(ctx, ...)] on
    the client and in the context at hand, and what a cancelled context or a
    retry makes of a call is for them to say. *)
Class Collaborators : Type := {
  Server : Type;
  URL    : Type;
  (* validStringID(&id) *)
  validStringID : string -> bool;
  (* url.QueryEscape *)
  QueryEscape : string -> string;
  (* client.NewRequest(method, path, nil): builds a request, sends nothing *)
  NewRequest : string -> string -> result Request;
  (* req.Do(ctx, &Plan{}): what the call returns, decoded as a resource *)
  doResource : Request -> Server -> result Plan * Server;
  (* req.Do(ctx, &buf): what the call returns, the body as raw bytes *)
  doRaw : Request -> Server -> result (list byte) * Server;
  (* url.Parse *)
  url_Parse : string -> result URL;
  (* json.Unmarshal into a PlanResourceChanges *)
  json_Unmarshal : list byte -> result PlanResourceChanges;
  (* the log store: bytes of the log at [url] from [offset] on *)
  fetchRange : URL -> Z -> Server -> result (list byte) * Server;
  (* the wait between two polls; an error when the context is cancelled *)
  pause : Server -> option error * Server
}.

Section Plans.

Context `{C : Collaborators}.

(** The calls that the methods made on the client and on the log store.
    [ApiRequest req] is one call of [req.Do]; [ChunkFetch u offset] is one
    call for a chunk of the log.  This is a record of calls, kept in the
    order they were made, not of transmissions: whether the transport sent
    nothing (a context already cancelled) or sent more than once (a retry)
    for a call is not decided in [plan.go] and is not recorded. *)
Inductive WireEvent : Type :=
| ApiRequest (req : Request)
| ChunkFetch (u : URL) (offset : Z).

Record World : Type := {
  wire   : list WireEvent;
  remote : Server
}.

(** The world after the call [ev], which left the far side in state [s]. *)
Definition sent (ev : WireEvent) (s : Server) (w : World) : World :=
  {| wire := wire w ++ [ev]; remote := s |}.

Definition is_chunk_fetch (ev : WireEvent) : bool :=
  match ev with ChunkFetch _ _ => true | ApiRequest _ => false end.

Definition chunk_fetches (w : World) : list WireEvent :=
  filter is_chunk_fetch (wire w).

Definition api_requests (w : World) : list WireEvent :=
  filter (fun ev => negb (is_chunk_fetch ev)) (wire w).

(** ** The monad of the methods: state [World], failure [error]

    [x <- c ;; k] is Go's
    [x, err := c(); if err != nil { return nil, err }; k]. *)
Definition M (A : Type) : Type := World -> result A * World.

Definition ret {A : Type} (a : A) : M A := fun w => (Ok a, w).

Definition fail {A : Type} (e : error) : M A := fun w => (Err e, w).

Definition bind {A B : Type} (c : M A) (k : A -> M B) : M B :=
  fun w =>
    match c w with
    | (Ok a, w') => k a w'
    | (Err e, w') => (Err e, w')
    end.

Definition lift {A : Type} (r : result A) : M A := fun w => (r, w).

Notation "x <- c ;; k" := (bind c (fun x => k))
  (at level 61, c at next level, right associativity).

(** Modelled from the spec: [req.Do(ctx, &Plan{})], of the client's request
    plumbing, which is not part of [plan.go] ("doRequest(method, path) ->
    parsed resource or raw bytes").  What the call returns is the
    collaborators'; the call itself is noted in [wire]. *)
Definition Do_resource (req : Request) : M Plan :=
  fun w =>
    let (r, s) := doResource req (remote w) in
    (r, sent (ApiRequest req) s w).

(** Modelled from the spec: [req.Do(ctx, &buf)], the same call with an
    [io.Writer] as its target, so that the body comes back as raw bytes. *)
Definition Do_raw (req : Request) : M (list byte) :=
  fun w =>
    let (r, s) := doRaw req (remote w) in
    (r, sent (ApiRequest req) s w).

(** ** The methods of [plans] *)

(** [func (s *plans) Read(ctx, planID)], returning [*Plan, error] *)
Definition Read (planID : string) : M Plan :=
  if negb (validStringID planID) then fail ErrInvalidPlanID
  else
    let u := "plans/" ++ QueryEscape planID in
    req <- lift (NewRequest "GET" u) ;;
    p <- Do_resource req ;;
    ret p.

(** [switch s { case c1, ..., cn: ... }] on a status. *)
Definition status_in (cases : list PlanStatus) (s : PlanStatus) : bool :=
  existsb (String.eqb s) cases.

(** The closure [done] that [Logs] builds; [p] is the plan it captures.
    It returns Go's pair [(bool, error)], with [None] for a nil error. *)
Definition done (p : Plan) : World -> (bool * option error) * World :=
  fun w =>
    match Read (ID p) w with
    | (Err err, w') => ((false, Some err), w')
    | (Ok p', w') =>
        if status_in [PlanCanceled; PlanErrored; PlanFinished; PlanUnreachable]
                     (Status p')
        then ((true, None), w')
        else ((false, None), w')
    end.

(** Modelled from the spec: the type [LogReader], which [Logs] builds and
    [plan.go] does not declare.  It holds the completion check, the log
    location, the cursor and the terminal flag; the last two start at Go's
    zero values.  Its fields [client] and [ctx], which [Logs] sets from
    [s.client] and [ctx], are the collaborators' (see above) and have no
    field of their own here. *)
Record LogReader : Type := {
  lr_done     : World -> (bool * option error) * World;
  lr_logURL   : URL;
  lr_offset   : Z;
  lr_terminal : bool
}.

(** [func (s *plans) Logs(ctx, planID) (io.Reader, error)] *)
Definition Logs (planID : string) : M LogReader :=
  if negb (validStringID planID) then fail ErrInvalidPlanID
  else
    p <- Read planID ;;
    if (LogReadURL p =? "")%string
    then fail (Errorf ("plan " ++ planID ++ " does not have a log URL"))
    else
      match url_Parse (LogReadURL p) with
      | Err err => fail (Wrapf "invalid log URL: " err)
      | Ok u =>
          ret {| lr_done := done p;
                 lr_logURL := u;
                 lr_offset := 0;
                 lr_terminal := false |}
      end.

(** [func (s *plans) ReadJSONOutput(ctx, planID) ([]byte, error)] *)
Definition ReadJSONOutput (planID : string) : M (list byte) :=
  if negb (validStringID planID) then fail ErrInvalidPlanID
  else
    let u := "plans/" ++ QueryEscape planID ++ "/json-output" in
    req <- lift (NewRequest "GET" u) ;;
    buf <- Do_raw req ;;
    ret buf.

(** [func (s *plans) ReadResourceChanges(ctx, planID)], returning [*PlanResourceChanges, error] *)
Definition ReadResourceChanges (planID : string) : M PlanResourceChanges :=
  if negb (validStringID planID) then fail ErrInvalidPlanID
  else
    let u := "plans/" ++ QueryEscape planID ++ "/json-output-redacted" in
    req <- lift (NewRequest "GET" u) ;;
    buf <- Do_raw req ;;
    match json_Unmarshal buf with
    | Err err => fail err
    | Ok resourceChanges => ret resourceChanges
    end.

(** ** The log reader

    Modelled from the spec: the reading side of [LogReader], which is not part
    of [plan.go].  A chunk fetch asks the log store for the bytes from the
    cursor on and notes a [ChunkFetch] in [wire]. *)
Definition fetchChunk (u : URL) (off : Z) : M (list byte) :=
  fun w =>
    let (r, s) := fetchRange u off (remote w) in
    (r, sent (ChunkFetch u off) s w).

(** Modelled from the spec: the wait between two polls.  No call is made;
    the remote service moves on meanwhile. *)
Definition sleep (w : World) : option error * World :=
  let (e, s) := pause (remote w) in
  (e, {| wire := wire w; remote := s |}).

(** What one [Read] hands back: [Bytes c] is [(len(c), nil)] with [c] in the
    caller's buffer, [EndOfStream] is [(0, io.EOF)], [Failed e] is [(0, e)].
    [StillPolling] is the model's own: the poll budget ran out while the loop
    was still waiting. *)
Inductive ReadOutcome : Type :=
| Bytes (chunk : list byte)
| EndOfStream
| Failed (e : error)
| StillPolling.

Definition advance (r : LogReader) (n : Z) : LogReader :=
  {| lr_done := lr_done r;
     lr_logURL := lr_logURL r;
     lr_offset := lr_offset r + n;
     lr_terminal := lr_terminal r |}.

Definition set_terminal (r : LogReader) : LogReader :=
  {| lr_done := lr_done r;
     lr_logURL := lr_logURL r;
     lr_offset := lr_offset r;
     lr_terminal := true |}.

(** Modelled from the spec: the poll loop of a read (steps 2 to 5 of the
    reader's algorithm): fetch from the cursor; deliver what came; when
    nothing came ask the completion check, stop on terminal, fail on its
    error, otherwise wait and fetch again.  [fuel] bounds the iterations. *)
Fixpoint poll (fuel : nat) (r : LogReader) (w : World)
  : (ReadOutcome * LogReader) * World :=
  match fuel with
  | O => ((StillPolling, r), w)
  | S fuel' =>
      match fetchChunk (lr_logURL r) (lr_offset r) w with
      | (Err e, w1) => ((Failed e, r), w1)
      | (Ok (b :: bs), w1) =>
          ((Bytes (b :: bs), advance r (Z.of_nat (length (b :: bs)))), w1)
      | (Ok [], w1) =>
          match lr_done r w1 with
          | ((_, Some e), w2) => ((Failed e, r), w2)
          | ((true, None), w2) => ((EndOfStream, set_terminal r), w2)
          | ((false, None), w2) =>
              match sleep w2 with
              | (Some e, w3) => ((Failed e, r), w3)
              | (None, w3) => poll fuel' r w3
              end
          end
      end
  end.

(** Modelled from the spec: [LogReader.Read] (step 1, then the poll loop). *)
Definition LogReader_Read (fuel : nat) (r : LogReader) (w : World)
  : (ReadOutcome * LogReader) * World :=
  if lr_terminal r then ((EndOfStream, r), w) else poll fuel r w.

(** [n] reads in a row by the one consumer of the stream. *)
Fixpoint drain (fuel n : nat) (r : LogReader) (w : World)
  : (list ReadOutcome * LogReader) * World :=
  match n with
  | O => (([], r), w)
  | S n' =>
      let '((out, r1), w1) := LogReader_Read fuel r w in
      let '((outs, r2), w2) := drain fuel n' r1 w1 in
      ((out :: outs, r2), w2)
  end.

(** An iteration of the poll loop that found nothing and was told to wait,
    and any number of them in a row. *)
Inductive quiet (r : LogReader) : World -> World -> Prop :=
| quiet_here w : quiet r w w
| quiet_again w w1 w2 w3 w4 :
    fetchChunk (lr_logURL r) (lr_offset r) w = (Ok [], w1) ->
    lr_done r w1 = ((false, None), w2) ->
    sleep w2 = (None, w3) ->
    quiet r w3 w4 ->
    quiet r w w4.

(** From [w], after any number of quiet iterations, a fetch at the cursor
    comes back empty and the completion check, asked right after it, answers
    terminal and leaves the world at [w']. *)
Definition both_hold (r : LogReader) (w w' : World) : Prop :=
  exists w0 w1,
    quiet r w w0 /\
    fetchChunk (lr_logURL r) (lr_offset r) w0 = (Ok [], w1) /\
    lr_done r w1 = ((true, None), w').




(** What one call of a method may do to the world: nothing at all; or one
    call of [req.Do].  Never a call on the log store. *)
Definition at_most_one_request (w w' : World) : Prop :=
  w' = w \/ exists req s, w' = sent (ApiRequest req) s w.

End Plans.

(** ** A concrete service

    One instance of the collaborators, small enough to run: a service that
    knows one plan, answers each read of it with the next status of a script,
    and lets one more chunk of log arrive at every pause. *)
Module Sample.

(** Go's [\s] and the slash. *)
Definition slash_or_space (c : ascii) : bool :=
  let n := nat_of_ascii c in
  (n =? 47)%nat || (n =? 32)%nat || (n =? 9)%nat || (n =? 10)%nat
  || (n =? 12)%nat || (n =? 13)%nat.

Fixpoint free_of_slash_and_space (s : string) : bool :=
  match s with
  | EmptyString => true
  | String c s' => negb (slash_or_space c) && free_of_slash_and_space s'
  end.

(** A non-empty identifier with no slash and no white space. *)
Definition validStringID (s : string) : bool :=
  negb (s =? "")%string && free_of_slash_and_space s.

Definition unreserved (c : ascii) : bool :=
  let n := nat_of_ascii c in
  ((48 <=? n) && (n <=? 57))%nat || ((65 <=? n) && (n <=? 90))%nat
  || ((97 <=? n) && (n <=? 122))%nat
  || (n =? 45)%nat || (n =? 95)%nat || (n =? 46)%nat || (n =? 126)%nat.

Definition hex_digit (n : nat) : ascii :=
  if (n <? 10)%nat then ascii_of_nat (48 + n) else ascii_of_nat (55 + n).

Fixpoint QueryEscape (s : string) : string :=
  match s with
  | EmptyString => EmptyString
  | String c s' =>
      let n := nat_of_ascii c in
      if unreserved c then String c (QueryEscape s')
      else if (n =? 32)%nat then String "+" (QueryEscape s')
      else String "%" (String (hex_digit (n / 16))
                         (String (hex_digit (n mod 16)) (QueryEscape s')))
  end.

Record Service : Type := {
  plan_id     : string;              (* the plan the service knows *)
  reported_id : string;              (* the id its records carry *)
  log_url     : string;
  statuses    : list PlanStatus;     (* one per read; then finished *)
  arrived     : list byte;           (* the log so far *)
  upcoming    : list (list byte);    (* chunks still to arrive *)
  json_output : list byte;
  cancelled   : bool
}.

Definition not_found : error := Foreign "tfe" "resource not found".

Definition record_of (s : Service) : Plan :=
  {| ID := reported_id s;
     HasChanges := false;
     GeneratedConfiguration := false;
     LogReadURL := log_url s;
     ResourceAdditions := 0;
     ResourceChanges_count := 0;
     ResourceDestructions := 0;
     ResourceImports := 0;
     Status := hd PlanFinished (statuses s);
     StatusTimestamps := None;
     Exports := [] |}.

Definition next_status (s : Service) : Service :=
  {| plan_id := plan_id s; reported_id := reported_id s; log_url := log_url s;
     statuses := tl (statuses s);
     arrived := arrived s; upcoming := upcoming s;
     json_output := json_output s; cancelled := cancelled s |}.

Definition doResource (req : Request) (s : Service) : result Plan * Service :=
  if ((Method req =? "GET") && (Path req =? "plans/" ++ plan_id s))%string
  then (Ok (record_of s), next_status s)
  else (Err not_found, s).

Definition doRaw (req : Request) (s : Service) : result (list byte) * Service :=
  if ((Method req =? "GET")
      && ((Path req =? "plans/" ++ plan_id s ++ "/json-output")
          || (Path req =? "plans/" ++ plan_id s ++ "/json-output-redacted")))%string
  then (Ok (json_output s), s)
  else (Err not_found, s).

(** A location that starts with a colon has no scheme. *)
Definition url_Parse (s : string) : result string :=
  match s with
  | String ":" _ => Err (Foreign "net/url" "missing protocol scheme")
  | _ => Ok s
  end.

(** Decodes the two documents [{}] and [null]; anything else is a syntax
    error. *)
Definition json_Unmarshal (b : list byte) : result PlanResourceChanges :=
  let s := string_of_list_byte b in
  if ((s =? "{}") || (s =? "null"))%string
  then Ok {| ResourceChanges := [] |}
  else Err (Foreign "encoding/json" "invalid character").

Definition fetchRange (u : string) (off : Z) (s : Service)
  : result (list byte) * Service :=
  if (u =? log_url s)%string
  then (Ok (skipn (Z.to_nat off) (arrived s)), s)
  else (Err not_found, s).

Definition pause (s : Service) : option error * Service :=
  if cancelled s then (Some (Foreign "context" "context canceled"), s)
  else
    (None,
     {| plan_id := plan_id s; reported_id := reported_id s; log_url := log_url s;
        statuses := statuses s;
        arrived := arrived s ++ hd [] (upcoming s);
        upcoming := tl (upcoming s);
        json_output := json_output s; cancelled := cancelled s |}).

#[export] Instance collaborators : Collaborators :=
  @Build_Collaborators
    Service string
    validStringID
    QueryEscape
    (fun m p => Ok {| Method := m; Path := p |})
    doResource
    doRaw
    url_Parse
    json_Unmarshal
    fetchRange
    pause.

Definition bytes (s : string) : list byte := list_byte_of_string s.

(** The plan [run-abc]: running, running, finished; its log comes in two
    chunks. *)
Definition run_abc : Service :=
  {| plan_id := "run-abc"; reported_id := "run-abc";
     log_url := "https://archivist.example/logs/run-abc";
     statuses := [PlanRunning; PlanRunning; PlanFinished];
     arrived := bytes "Initializing...";
     upcoming := [bytes "Apply complete."];
     json_output := bytes "{}";
     cancelled := false |}.

(** A plan that has already errored while its one chunk of log is still
    unread. *)
Definition errored_with_tail : Service :=
  {| plan_id := "plan-e"; reported_id := "plan-e";
     log_url := "https://archivist.example/logs/plan-e";
     statuses := [PlanErrored; PlanErrored; PlanErrored];
     arrived := bytes "Error: boom";
     upcoming := [];
     json_output := bytes "{ not json";
     cancelled := false |}.

(** A plan with no log location. *)
Definition without_log : Service :=
  {| plan_id := "plan-q"; reported_id := "plan-q";
     log_url := "";
     statuses := [PlanQueued];
     arrived := []; upcoming := [];
     json_output := bytes "{}";
     cancelled := false |}.

(** A plan whose log location does not parse. *)
Definition with_bad_log_url : Service :=
  {| plan_id := "plan-u"; reported_id := "plan-u";
     log_url := ":no-scheme";
     statuses := [PlanRunning];
     arrived := []; upcoming := [];
     json_output := bytes "{}";
     cancelled := false |}.

(** A service whose records carry no identifier. *)
Definition nameless : Service :=
  {| plan_id := "plan-n"; reported_id := "";
     log_url := "https://archivist.example/logs/plan-n";
     statuses := [PlanRunning; PlanRunning];
     arrived := []; upcoming := [];
     json_output := bytes "{}";
     cancelled := false |}.


(** A service that has lost the plan its earlier record named. *)
Definition renamed : Service :=
  {| plan_id := "plan-r"; reported_id := "plan-gone";
     log_url := "https://archivist.example/logs/plan-r";
     statuses := [PlanRunning];
     arrived := []; upcoming := [];
     json_output := bytes "{}";
     cancelled := false |}.

(** The stream [Logs] builds for the plan of a service. *)
Definition stream (s : Service) : LogReader :=
  {| lr_done := done (record_of s);
     lr_logURL := log_url s;
     lr_offset := 0;
     lr_terminal := false |}.

Definition fresh (s : Service) : World := {| wire := []; remote := s |}.

End Sample.

(** * Properties *)

Section PlansFacts.

Context `{C : Collaborators}.

(** ** What a call of [Read] does *)

Lemma Read_invalid (planID : string) (w : World) :
  validStringID planID = false ->
  Read planID w = (Err ErrInvalidPlanID, w).
Proof.
  intros H. unfold Read. rewrite H. reflexivity.
Qed.

Lemma Read_valid (planID : string) (req : Request) (w : World) :
  validStringID planID = true ->
  NewRequest "GET" ("plans/" ++ QueryEscape planID) = Ok req ->
  Read planID w =
    (fst (doResource req (remote w)),
     sent (ApiRequest req) (snd (doResource req (remote w))) w).
Proof.
  intros Hid Hreq. unfold Read, bind, lift, Do_resource, ret.
  rewrite Hid, Hreq. cbn.
  destruct (doResource req (remote w)) as [[q | e] s]; reflexivity.
Qed.

Lemma Read_Ok_inv (planID : string) (p : Plan) (w w' : World) :
  Read planID w = (Ok p, w') ->
  validStringID planID = true /\
  exists req s,
    NewRequest "GET" ("plans/" ++ QueryEscape planID) = Ok req /\
    doResource req (remote w) = (Ok p, s) /\
    w' = sent (ApiRequest req) s w.
Proof.
  unfold Read, bind, lift, Do_resource, ret, fail.
  intros H.
  destruct (validStringID planID); cbn [negb] in H; [ | discriminate H ].
  destruct (NewRequest "GET" ("plans/" ++ QueryEscape planID)) as [req | e];
    cbn [negb] in H; [ | discriminate H ].
  destruct (doResource req (remote w)) as [[q | e] s] eqn:Hdo;
    cbn [negb] in H; inversion H; subst.
  split; [ reflexivity | ]. exists req, s. auto.
Qed.

Lemma chunk_fetches_sent_api (req : Request) (s : Server) (w : World) :
  chunk_fetches (sent (ApiRequest req) s w) = chunk_fetches w.
Proof.
  unfold chunk_fetches, sent. cbn. rewrite filter_app. cbn.
  apply app_nil_r.
Qed.

Lemma Read_chunk_fetches (planID : string) (w : World) :
  chunk_fetches (snd (Read planID w)) = chunk_fetches w.
Proof.
  unfold Read, bind, lift, Do_resource, ret, fail.
  destruct (validStringID planID); cbn [negb snd]; [ | reflexivity ].
  destruct (NewRequest "GET" ("plans/" ++ QueryEscape planID)) as [req | e];
    [ | reflexivity ].
  destruct (doResource req (remote w)) as [[q | e] s];
    cbn [snd]; apply chunk_fetches_sent_api.
Qed.

(** The [case] list of [done], read as a set of spellings. *)
Lemma final_status_spellings (s : PlanStatus) :
  status_in [PlanCanceled; PlanErrored; PlanFinished; PlanUnreachable] s = true
  <-> In s ["finished"; "errored"; "canceled"; "unreachable"].
Proof.
  unfold status_in, PlanCanceled, PlanErrored, PlanFinished, PlanUnreachable.
  cbn [existsb In]. rewrite !orb_true_iff, !String.eqb_eq.
  intuition congruence.
Qed.

(** ** The completion check *)

(** C1: when the check's own read of the plan succeeds, it answers
    [(true, nil)] if the status read is one of finished, errored, canceled,
    unreachable, and [(false, nil)] for every other status. *)
Theorem done_classifies_status (p p' : Plan) (w w' : World) :
  Read (ID p) w = (Ok p', w') ->
  (In (Status p') ["finished"; "errored"; "canceled"; "unreachable"] ->
   done p w = ((true, None), w'))
  /\
  (~ In (Status p') ["finished"; "errored"; "canceled"; "unreachable"] ->
   done p w = ((false, None), w')).
Proof.
  intros HRead. unfold done. rewrite HRead.
  destruct (status_in _ (Status p')) eqn:Hs.
  - split; [ reflexivity | ].
    intros Hn. exfalso. apply Hn. apply final_status_spellings. exact Hs.
  - split; [ | reflexivity ].
    intros Hin. apply final_status_spellings in Hin. congruence.
Qed.

(** C5: when the check's read of the plan fails with [e], the check answers
    [(false, e)], with the very same error, and does nothing more. *)
Theorem done_propagates_error (p : Plan) (e : error) (w w' : World) :
  Read (ID p) w = (Err e, w') ->
  done p w = ((false, Some e), w').
Proof.
  intros HRead. unfold done. rewrite HRead. reflexivity.
Qed.



(** ** Rejected identifiers *)

(** C4: an identifier that fails validation makes each of [Read], [Logs],
    [ReadJSONOutput] and [ReadResourceChanges] return [(nil, ErrInvalidPlanID)]
    at once: the world is left as it was, and so no call was made on the
    client. *)
Theorem invalid_plan_id_rejected (planID : string) (w : World) :
  validStringID planID = false ->
  Read planID w = (Err ErrInvalidPlanID, w) /\
  Logs planID w = (Err ErrInvalidPlanID, w) /\
  ReadJSONOutput planID w = (Err ErrInvalidPlanID, w) /\
  ReadResourceChanges planID w = (Err ErrInvalidPlanID, w).
Proof.
  intros H. unfold Read, Logs, ReadJSONOutput, ReadResourceChanges.
  rewrite H. cbn [negb]. unfold fail. repeat split.
Qed.

(** ** Building the stream *)

Lemma Logs_after_Read (planID : string) (p : Plan) (w w1 : World) :
  Read planID w = (Ok p, w1) ->
  Logs planID w =
    (if (LogReadURL p =? "")%string
     then fail (Errorf ("plan " ++ planID ++ " does not have a log URL"))
     else
       match url_Parse (LogReadURL p) with
       | Err err => fail (Wrapf "invalid log URL: " err)
       | Ok u =>
           ret {| lr_done := done p; lr_logURL := u;
                  lr_offset := 0; lr_terminal := false |}
       end) w1.
Proof.
  intros HRead. destruct (Read_Ok_inv _ _ HRead) as [Hid _].
  unfold Logs. rewrite Hid. cbn [negb]. unfold bind at 1.
  rewrite HRead. reflexivity.
Qed.

(** A stream that [Logs] returns starts at offset zero with the terminal flag
    down, and its completion check is [done] for the plan that was read. *)
Lemma Logs_stream_is_fresh (planID : string) (r : LogReader) (w w1 : World) :
  Logs planID w = (Ok r, w1) ->
  lr_terminal r = false /\ lr_offset r = 0%Z /\
  exists p, Read planID w = (Ok p, w1) /\ lr_done r = done p.
Proof.
  intros HLogs.
  destruct (validStringID planID) eqn:Hid.
  2:{ unfold Logs in HLogs. rewrite Hid in HLogs. discriminate HLogs. }
  destruct (Read planID w) as [[p | e] w0] eqn:HRead.
  2:{ unfold Logs in HLogs. rewrite Hid in HLogs. cbn [negb] in HLogs.
      unfold bind in HLogs. rewrite HRead in HLogs. discriminate HLogs. }
  rewrite (Logs_after_Read _ _ HRead) in HLogs.
  destruct (LogReadURL p =? "")%string; [ discriminate HLogs | ].
  destruct (url_Parse (LogReadURL p)) as [u | e]; [ | discriminate HLogs ].
  unfold ret in HLogs. inversion HLogs; subst. cbn.
  repeat split. exists p. split; reflexivity.
Qed.

(** C3: when the plan is read successfully and its log location is the empty
    string, [Logs] returns a nil reader and a non-nil error, right after that
    read, and no chunk of the log has been fetched. *)
Theorem Logs_without_log_url (planID : string) (p : Plan) (w w1 : World) :
  Read planID w = (Ok p, w1) ->
  LogReadURL p = "" ->
  Logs planID w =
    (Err (Errorf ("plan " ++ planID ++ " does not have a log URL")), w1)
  /\ chunk_fetches w1 = chunk_fetches w.
Proof.
  intros HRead Hurl. split.
  - rewrite (Logs_after_Read _ _ HRead), Hurl. reflexivity.
  - pose proof (Read_chunk_fetches planID w) as H.
    rewrite HRead in H. exact H.
Qed.

(** C10: when the plan is read successfully and its non-empty log location
    fails to parse with [e], [Logs] returns a nil reader and an error that
    wraps [e], right after that read: no reader is built and no chunk of the
    log has been fetched. *)
Theorem Logs_unparsable_log_url
  (planID : string) (p : Plan) (e : error) (w w1 : World) :
  Read planID w = (Ok p, w1) ->
  LogReadURL p <> "" ->
  url_Parse (LogReadURL p) = Err e ->
  Logs planID w = (Err (Wrapf "invalid log URL: " e), w1)
  /\ Unwrap (Wrapf "invalid log URL: " e) = Some e
  /\ chunk_fetches w1 = chunk_fetches w.
Proof.
  intros HRead Hurl Hparse. split; [ | split ].
  - rewrite (Logs_after_Read _ _ HRead), Hparse.
    destruct (LogReadURL p =? "")%string eqn:Hempty; [ | reflexivity ].
    apply String.eqb_eq in Hempty. contradiction.
  - reflexivity.
  - pose proof (Read_chunk_fetches planID w) as H.
    rewrite HRead in H. exact H.
Qed.

(** ** JSON output *)

Lemma Do_raw_run (req : Request) (w : World) :
  Do_raw req w =
    (fst (doRaw req (remote w)),
     sent (ApiRequest req) (snd (doRaw req (remote w))) w).
Proof.
  unfold Do_raw. destruct (doRaw req (remote w)); reflexivity.
Qed.

(** C9: for a valid identifier, once [req.Do] has given a body,
    [ReadJSONOutput] returns exactly that body with a nil error, whatever the
    JSON decoder would say of it. *)
Theorem ReadJSONOutput_returns_body
  (planID : string) (req : Request) (body : list byte) (s : Server) (w : World) :
  validStringID planID = true ->
  NewRequest "GET" ("plans/" ++ QueryEscape planID ++ "/json-output") = Ok req ->
  doRaw req (remote w) = (Ok body, s) ->
  ReadJSONOutput planID w = (Ok body, sent (ApiRequest req) s w).
Proof.
  intros Hid Hreq Hdo. unfold ReadJSONOutput. rewrite Hid. cbn [negb].
  unfold bind, lift. rewrite Hreq, Do_raw_run, Hdo. reflexivity.
Qed.

(** C7: for a valid identifier, when the body that came back does not decode
    as a [PlanResourceChanges], [ReadResourceChanges] returns a nil result and
    the decoder's error, right after the call of [req.Do] that gave the
    body. *)
Theorem ReadResourceChanges_decode_error
  (planID : string) (req : Request) (body : list byte) (e : error)
  (s : Server) (w : World) :
  validStringID planID = true ->
  NewRequest "GET" ("plans/" ++ QueryEscape planID ++ "/json-output-redacted")
    = Ok req ->
  doRaw req (remote w) = (Ok body, s) ->
  json_Unmarshal body = Err e ->
  ReadResourceChanges planID w = (Err e, sent (ApiRequest req) s w).
Proof.
  intros Hid Hreq Hdo Hjson. unfold ReadResourceChanges. rewrite Hid. cbn [negb].
  unfold bind, lift. rewrite Hreq, Do_raw_run, Hdo. cbn [fst snd].
  rewrite Hjson. reflexivity.
Qed.

(** ** Reading the stream *)

Lemma poll_end_of_stream (fuel : nat) (r : LogReader) :
  forall (w w' : World) (r' : LogReader),
    poll fuel r w = ((EndOfStream, r'), w') ->
    exists w0 w1,
      quiet r w w0 /\
      fetchChunk (lr_logURL r) (lr_offset r) w0 = (Ok [], w1) /\
      lr_done r w1 = ((true, None), w') /\
      r' = set_terminal r.
Proof.
  induction fuel as [ | fuel IH ]; intros w w' r' H; cbn [poll] in H.
  - discriminate H.
  - destruct (fetchChunk (lr_logURL r) (lr_offset r) w)
      as [[[ | b bs] | e] w1] eqn:Hfetch; try discriminate H.
    destruct (lr_done r w1) as [[[ | ] [e | ]] w2] eqn:Hdone;
      try discriminate H.
    + inversion H; subst. exists w, w1.
      split; [ apply quiet_here | auto ].
    + destruct (sleep w2) as [[e | ] w3] eqn:Hsleep; try discriminate H.
      destruct (IH _ _ _ H) as (w0 & w4 & Hq & Hf & Hd & Hr).
      exists w0, w4. split; [ | auto ].
      eapply quiet_again; eassumption.
Qed.

Lemma poll_keeps_flag (fuel : nat) (r : LogReader) :
  forall (w w' : World) (out : ReadOutcome) (r' : LogReader),
    poll fuel r w = ((out, r'), w') ->
    out <> EndOfStream ->
    lr_terminal r' = lr_terminal r.
Proof.
  induction fuel as [ | fuel IH ]; intros w w' out r' H Hout; cbn [poll] in H.
  - inversion H; subst. reflexivity.
  - destruct (fetchChunk (lr_logURL r) (lr_offset r) w)
      as [[[ | b bs] | e] w1] eqn:Hfetch;
      try (inversion H; subst; reflexivity).
    destruct (lr_done r w1) as [[[ | ] [e | ]] w2] eqn:Hdone;
      try (inversion H; subst; reflexivity).
    + inversion H; subst. contradiction.
    + destruct (sleep w2) as [[e | ] w3] eqn:Hsleep;
        [ inversion H; subst; reflexivity | ].
      eapply IH; eassumption.
Qed.

Lemma poll_delivers (fuel : nat) (r : LogReader) (chunk : list byte)
      (w w1 : World) :
  fetchChunk (lr_logURL r) (lr_offset r) w = (Ok chunk, w1) ->
  chunk <> [] ->
  poll (S fuel) r w =
    ((Bytes chunk, advance r (Z.of_nat (length chunk))), w1).
Proof.
  intros Hfetch Hne. cbn [poll]. rewrite Hfetch.
  destruct chunk as [ | b bs ]; [ contradiction | reflexivity ].
Qed.

Lemma drain_after_end (fuel n : nat) (r : LogReader) (w : World) :
  lr_terminal r = true ->
  drain fuel n r w = ((repeat EndOfStream n, r), w).
Proof.
  intros Hup. induction n as [ | n IH ]; cbn [drain repeat].
  - reflexivity.
  - unfold LogReader_Read. rewrite Hup, IH. reflexivity.
Qed.

Lemma drain_history (fuel n : nat) :
  forall (r : LogReader) (w : World)
         (outs : list ReadOutcome) (r' : LogReader) (w' : World),
    lr_terminal r = false ->
    drain fuel n r w = ((outs, r'), w') ->
    In EndOfStream outs ->
    exists (j : nat) (ra : LogReader) (wa : World),
      (j < n)%nat /\
      drain fuel j r w = ((firstn j outs, ra), wa) /\
      ~ In EndOfStream (firstn j outs) /\
      lr_terminal ra = false /\
      both_hold ra wa w' /\
      r' = set_terminal ra /\
      skipn j outs = repeat EndOfStream (n - j).
Proof.
  induction n as [ | n IH ]; intros r w outs r' w' Hlive Hrun Hin;
    cbn [drain] in Hrun.
  - inversion Hrun; subst. contradiction.
  - destruct (LogReader_Read fuel r w) as [[out r1] w1] eqn:Hread.
    destruct (drain fuel n r1 w1) as [[outs1 r2] w2] eqn:Hrest.
    inversion Hrun; subst. clear Hrun.
    unfold LogReader_Read in Hread. rewrite Hlive in Hread.
    destruct out as [chunk | | e | ].
    2:{ (* this read declares the end *)
      destruct (poll_end_of_stream _ _ _ Hread) as (w0 & w3 & Hq & Hf & Hd & Hr).
      subst r1. rewrite drain_after_end in Hrest by reflexivity.
      inversion Hrest; subst.
      exists 0%nat, r, w. cbn [firstn skipn drain In].
      repeat split; try assumption; try lia; try tauto.
      exists w0, w3. auto. }
    all: assert (Hlive1 : lr_terminal r1 = false)
           by (rewrite <- Hlive;
               eapply poll_keeps_flag; [ eassumption | discriminate ]).
    all: destruct Hin as [Hin | Hin]; [ discriminate Hin | ].
    all: destruct (IH _ _ _ _ _ Hlive1 Hrest Hin)
           as (j & ra & wa & Hj & Hpre & Hno & Hra & Hboth & Hr' & Hpost).
    all: exists (S j), ra, wa; cbn [firstn skipn drain].
    all: unfold LogReader_Read; rewrite Hlive, Hread, Hpre.
    all: repeat split; try assumption; try lia.
    all: intros [Hbad | Hbad]; [ discriminate Hbad | contradiction ].
Qed.

(** C2: take a stream whose terminal flag is down, as it is on every stream
    that [Logs] returns, and let its consumer read [n] times.  If any of
    these reads declares end of stream, then there is a first one that does:
    the reads before it declared none and left the flag down, and in that
    read the fetch at the cursor came back empty and the completion check,
    asked right after that fetch, answered terminal; this sets the flag, and
    the later reads only repeat the end of stream.  And a non-empty chunk at
    the cursor is delivered, whatever the status of the plan, before any end
    of stream. *)
Theorem Read_end_of_stream_needs_both (fuel : nat) (r : LogReader) (w : World) :
  lr_terminal r = false ->
  (forall (n : nat) (outs : list ReadOutcome) (r' : LogReader) (w' : World),
     drain fuel n r w = ((outs, r'), w') ->
     In EndOfStream outs ->
     exists (j : nat) (ra : LogReader) (wa : World),
       (j < n)%nat /\
       drain fuel j r w = ((firstn j outs, ra), wa) /\
       ~ In EndOfStream (firstn j outs) /\
       lr_terminal ra = false /\
       both_hold ra wa w' /\
       r' = set_terminal ra /\
       skipn j outs = repeat EndOfStream (n - j))
  /\
  (forall (chunk : list byte) (w1 : World),
     fetchChunk (lr_logURL r) (lr_offset r) w = (Ok chunk, w1) ->
     chunk <> [] ->
     LogReader_Read (S fuel) r w =
       ((Bytes chunk, advance r (Z.of_nat (length chunk))), w1)).
Proof.
  intros Hlive. split.
  - intros n outs r' w' Hrun Hin.
    eapply drain_history; eassumption.
  - intros chunk w1 Hfetch Hne.
    unfold LogReader_Read. rewrite Hlive.
    apply poll_delivers; assumption.
Qed.

End PlansFacts.

(** ** The status constants *)

(** C6, amended: the constants declared for the plan status are exactly the
    nine strings canceled, created, errored, finished, mfa_waiting, pending,
    queued, running and unreachable, each declared once. *)
Theorem plan_status_constants_exact :
  (forall s : PlanStatus,
     In s plan_status_constants <->
     s = "canceled" \/ s = "created" \/ s = "errored" \/ s = "finished" \/
     s = "mfa_waiting" \/ s = "pending" \/ s = "queued" \/ s = "running" \/
     s = "unreachable")
  /\ NoDup plan_status_constants.
Proof.
  split.
  - intros s. unfold plan_status_constants, PlanCanceled, PlanCreated,
      PlanErrored, PlanFinished, PlanMFAWaiting, PlanPending, PlanQueued,
      PlanRunning, PlanUnreachable. cbn [In].
    split; intros H; repeat (destruct H as [H | H]; [ subst; tauto | ]);
      try contradiction; subst; tauto.
  - unfold plan_status_constants.
    repeat (constructor; [ cbn [In]; intros H;
      repeat (destruct H as [H | H]; [ discriminate H | ]); exact H | ]).
    constructor.
Qed.

(** C6 as stated fails: [created] is declared and is not in the
    specification's list, and the specification's [mfa-waiting] is not
    declared (the constant is spelled [mfa_waiting]). *)
Lemma plan_status_constants_not_spec_enumeration :
  ~ (forall s : PlanStatus,
       In s plan_status_constants <-> In s spec_status_enumeration).
Proof.
  intros H. destruct (H PlanCreated) as [Hin _].
  assert (Hc : In PlanCreated plan_status_constants)
    by (cbn; tauto).
  specialize (Hin Hc). cbn in Hin.
  repeat (destruct Hin as [Hin | Hin]; [ discriminate Hin | ]).
  exact Hin.
Qed.

(** * Runs on the concrete service *)

(** C1 at work: the check reads [errored] and answers terminal; it reads
    [running] and answers not terminal. *)
Lemma done_classifies_status_witness :
  done (Sample.record_of Sample.errored_with_tail)
       (Sample.fresh Sample.errored_with_tail)
  = ((true, None),
     snd (Read "plan-e" (Sample.fresh Sample.errored_with_tail)))
  /\
  done (Sample.record_of Sample.run_abc) (Sample.fresh Sample.run_abc)
  = ((false, None), snd (Read "run-abc" (Sample.fresh Sample.run_abc))).
Proof.
  split.
  - apply (proj1 (done_classifies_status
                    (Sample.record_of Sample.errored_with_tail)
                    (p' := Sample.record_of Sample.errored_with_tail)
                    (Sample.fresh Sample.errored_with_tail) eq_refl)).
    cbn. tauto.
  - apply (proj2 (done_classifies_status
                    (Sample.record_of Sample.run_abc)
                    (p' := Sample.record_of Sample.run_abc)
                    (Sample.fresh Sample.run_abc) eq_refl)).
    cbn. intros H.
    repeat (destruct H as [H | H]; [ discriminate H | ]). exact H.
Defined.

(** C5 at work: the plan the record names is gone, the read fails, and the
    check hands that failure on. *)
Lemma done_propagates_error_witness :
  done (Sample.record_of Sample.renamed) (Sample.fresh Sample.renamed)
  = ((false, Some Sample.not_found),
     snd (Read "plan-gone" (Sample.fresh Sample.renamed))).
Proof.
  apply (done_propagates_error (Sample.record_of Sample.renamed)
           (Sample.fresh Sample.renamed)).
  reflexivity.
Defined.

(** C4 at work: an identifier with a slash in it. *)
Lemma invalid_plan_id_rejected_witness :
  Sample.validStringID "a/b" = false /\
  Read "a/b" (Sample.fresh Sample.run_abc)
    = (Err ErrInvalidPlanID, Sample.fresh Sample.run_abc) /\
  Logs "a/b" (Sample.fresh Sample.run_abc)
    = (Err ErrInvalidPlanID, Sample.fresh Sample.run_abc) /\
  ReadJSONOutput "a/b" (Sample.fresh Sample.run_abc)
    = (Err ErrInvalidPlanID, Sample.fresh Sample.run_abc) /\
  ReadResourceChanges "a/b" (Sample.fresh Sample.run_abc)
    = (Err ErrInvalidPlanID, Sample.fresh Sample.run_abc).
Proof.
  split; [ reflexivity | ].
  apply (invalid_plan_id_rejected "a/b" (Sample.fresh Sample.run_abc)).
  reflexivity.
Defined.

(** C3 at work: a queued plan without a log location. *)
Lemma Logs_without_log_url_witness :
  Logs "plan-q" (Sample.fresh Sample.without_log)
  = (Err (Errorf "plan plan-q does not have a log URL"),
     snd (Read "plan-q" (Sample.fresh Sample.without_log)))
  /\ chunk_fetches (snd (Read "plan-q" (Sample.fresh Sample.without_log))) = [].
Proof.
  apply (Logs_without_log_url "plan-q"
           (p := Sample.record_of Sample.without_log)
           (Sample.fresh Sample.without_log)).
  - reflexivity.
  - reflexivity.
Defined.

(** C10 at work: a log location without a scheme. *)
Lemma Logs_unparsable_log_url_witness :
  Logs "plan-u" (Sample.fresh Sample.with_bad_log_url)
  = (Err (Wrapf "invalid log URL: "
            (Foreign "net/url" "missing protocol scheme")),
     snd (Read "plan-u" (Sample.fresh Sample.with_bad_log_url)))
  /\ Unwrap (Wrapf "invalid log URL: "
               (Foreign "net/url" "missing protocol scheme"))
     = Some (Foreign "net/url" "missing protocol scheme")
  /\ chunk_fetches (snd (Read "plan-u" (Sample.fresh Sample.with_bad_log_url)))
     = [].
Proof.
  apply (Logs_unparsable_log_url "plan-u"
           (p := Sample.record_of Sample.with_bad_log_url)
           (Sample.fresh Sample.with_bad_log_url)).
  - reflexivity.
  - discriminate.
  - reflexivity.
Defined.

(** C9 at work: a body that is not JSON comes back as it is. *)
Lemma ReadJSONOutput_returns_body_witness :
  Sample.json_Unmarshal (Sample.bytes "{ not json")
    = Err (Foreign "encoding/json" "invalid character")
  /\
  ReadJSONOutput "plan-e" (Sample.fresh Sample.errored_with_tail)
  = (Ok (Sample.bytes "{ not json"),
     sent (C := Sample.collaborators)
          (ApiRequest {| Method := "GET"; Path := "plans/plan-e/json-output" |})
          Sample.errored_with_tail
          (Sample.fresh Sample.errored_with_tail)).
Proof.
  split; [ reflexivity | ].
  apply (@ReadJSONOutput_returns_body _ "plan-e" _ _ _
           (Sample.fresh Sample.errored_with_tail));
    reflexivity.
Defined.

(** C7 at work: the same body makes [ReadResourceChanges] fail with the
    decoder's error. *)
Lemma ReadResourceChanges_decode_error_witness :
  ReadResourceChanges "plan-e" (Sample.fresh Sample.errored_with_tail)
  = (Err (Foreign "encoding/json" "invalid character"),
     sent (C := Sample.collaborators)
          (ApiRequest {| Method := "GET";
                         Path := "plans/plan-e/json-output-redacted" |})
          Sample.errored_with_tail
          (Sample.fresh Sample.errored_with_tail)).
Proof.
  apply (@ReadResourceChanges_decode_error _ "plan-e" _
           (Sample.bytes "{ not json") _ _
           (Sample.fresh Sample.errored_with_tail));
    reflexivity.
Defined.


(** C2 at work: the plan has errored and a chunk is still unread.  The first
    read delivers the chunk; the second finds nothing, asks, and only then
    declares end of stream; the third repeats it. *)
Lemma Read_end_of_stream_needs_both_witness :
  let r := Sample.stream Sample.errored_with_tail in
  let w := snd (Logs "plan-e" (Sample.fresh Sample.errored_with_tail)) in
  Logs "plan-e" (Sample.fresh Sample.errored_with_tail) = (Ok r, w)
  /\ fst (fst (drain 1 3 r w))
     = [Bytes (Sample.bytes "Error: boom"); EndOfStream; EndOfStream]
  /\ LogReader_Read 1 r w
     = ((Bytes (Sample.bytes "Error: boom"), advance r 11),
        snd (fetchChunk (lr_logURL r) 0 w))
  /\ exists (j : nat) (ra : LogReader) (wa : World),
       (j < 3)%nat /\
       fst (fst (drain 1 j r w))
         = firstn j [Bytes (Sample.bytes "Error: boom");
                     EndOfStream; EndOfStream] /\
       both_hold ra wa (snd (drain 1 3 r w)).
Proof.
  intros r w.
  split; [ reflexivity | ].
  split; [ reflexivity | ].
  split.
  - apply (proj2 (Read_end_of_stream_needs_both 0 r w eq_refl)
             (Sample.bytes "Error: boom")
             (snd (fetchChunk (lr_logURL r) 0 w))).
    + reflexivity.
    + discriminate.
  - destruct (proj1 (Read_end_of_stream_needs_both 1 r w eq_refl)
                3%nat
                [Bytes (Sample.bytes "Error: boom"); EndOfStream; EndOfStream]
                (snd (fst (drain 1 3 r w)))
                (snd (drain 1 3 r w)))
      as (j & ra & wa & Hj & Hpre & _ & _ & Hboth & _).
    + reflexivity.
    + cbn. tauto.
    + exists j, ra, wa. rewrite Hpre. auto.
Defined.

(** * More on the methods *)

Section MethodFacts.

Context `{C : Collaborators}.

(** ** [Read], case by case *)

Lemma Read_request_error (planID : string) (e : error) (w : World) :
  validStringID planID = true ->
  NewRequest "GET" ("plans/" ++ QueryEscape planID) = Err e ->
  Read planID w = (Err e, w).
Proof.
  intros Hid Hreq. unfold Read, bind, lift. rewrite Hid, Hreq. reflexivity.
Qed.

(** X1: [Read] returns a plan exactly when the identifier is valid, the
    request for [plans/<escaped id>] could be built and [req.Do] on it
    returned that plan. *)
Theorem Read_Ok_iff (planID : string) (p : Plan) (w w' : World) :
  Read planID w = (Ok p, w') <->
  validStringID planID = true /\
  exists req s,
    NewRequest "GET" ("plans/" ++ QueryEscape planID) = Ok req /\
    doResource req (remote w) = (Ok p, s) /\
    w' = sent (ApiRequest req) s w.
Proof.
  split.
  - apply Read_Ok_inv.
  - intros (Hid & req & s & Hreq & Hdo & Hw). subst w'.
    rewrite (Read_valid _ w Hid Hreq), Hdo. reflexivity.
Qed.

(** X2: [Read] fails with [e] in exactly three ways: the identifier is
    invalid and [e] is [ErrInvalidPlanID]; or the request could not be built,
    with [e]; in both the world is left as it was.  Or the request was built
    and [req.Do] on it failed with [e]. *)
Theorem Read_Err_iff (planID : string) (e : error) (w w' : World) :
  Read planID w = (Err e, w') <->
  (validStringID planID = false /\ e = ErrInvalidPlanID /\ w' = w)
  \/
  (validStringID planID = true /\
   NewRequest "GET" ("plans/" ++ QueryEscape planID) = Err e /\ w' = w)
  \/
  (validStringID planID = true /\
   exists req s,
     NewRequest "GET" ("plans/" ++ QueryEscape planID) = Ok req /\
     doResource req (remote w) = (Err e, s) /\
     w' = sent (ApiRequest req) s w).
Proof.
  destruct (validStringID planID) eqn:Hid.
  - destruct (NewRequest "GET" ("plans/" ++ QueryEscape planID))
      as [req | e0] eqn:Hreq.
    + rewrite (Read_valid _ w Hid Hreq).
      destruct (doResource req (remote w)) as [[q | e1] s] eqn:Hdo;
        cbn [fst snd]; split.
      * intros H. discriminate H.
      * intros [(H & _) | [(_ & H & _) | (_ & r & s' & Hr & Hd & _)]];
          try discriminate H.
        assert (r = req) by congruence. subst r. congruence.
      * intros H. inversion H; subst. right; right.
        split; [ reflexivity | ]. exists req, s. auto.
      * intros [(H & _) | [(_ & H & _) | (_ & r & s' & Hr & Hd & Hw)]];
          try discriminate H.
        assert (r = req) by congruence. subst r. congruence.
    + rewrite (Read_request_error _ w Hid Hreq). split.
      * intros H. inversion H; subst. right; left. auto.
      * intros [(H & _) | [(_ & H & Hw) | (_ & r & s' & Hr & _)]];
          try discriminate.
        inversion H; subst. reflexivity.
  - rewrite (Read_invalid _ w Hid). split.
    + intros H. inversion H; subst. left. auto.
    + intros [(_ & He & Hw) | [(H & _) | (H & _)]]; try discriminate H.
      subst. reflexivity.
Qed.

(** ** [Logs] on top of [Read] *)

Lemma Logs_on_Read_error (planID : string) (e : error) (w w' : World) :
  Read planID w = (Err e, w') ->
  Logs planID w = (Err e, w').
Proof.
  intros HRead. unfold Logs.
  destruct (validStringID planID) eqn:Hid; cbn [negb].
  - unfold bind at 1. rewrite HRead. reflexivity.
  - rewrite (Read_invalid _ w Hid) in HRead.
    inversion HRead; subst. reflexivity.
Qed.

(** X3: [Logs] fails with [e] in exactly three ways: the read of the plan
    failed with [e]; or the plan was read and has an empty log location, and
    [e] is the "does not have a log URL" error for the identifier given; or
    the location is not empty and does not parse, and [e] wraps the parser's
    error.  In each the world is as the read left it. *)
Theorem Logs_Err_iff (planID : string) (e : error) (w w' : World) :
  Logs planID w = (Err e, w') <->
  Read planID w = (Err e, w')
  \/
  (exists p,
     Read planID w = (Ok p, w') /\ LogReadURL p = "" /\
     e = Errorf ("plan " ++ planID ++ " does not have a log URL"))
  \/
  (exists p e0,
     Read planID w = (Ok p, w') /\ LogReadURL p <> "" /\
     url_Parse (LogReadURL p) = Err e0 /\
     e = Wrapf "invalid log URL: " e0).
Proof.
  destruct (Read planID w) as [[p | e1] w1] eqn:HRead.
  - rewrite (Logs_after_Read _ _ HRead).
    destruct (LogReadURL p =? "")%string eqn:Hempty.
    + apply String.eqb_eq in Hempty. unfold fail. split.
      * intros H. inversion H; subst. right; left. exists p. auto.
      * intros [H | [(q & Hq & _ & He) | (q & e0 & Hq & Hne & _)]].
        -- discriminate H.
        -- inversion Hq; subst. reflexivity.
        -- inversion Hq; subst. contradiction.
    + apply String.eqb_neq in Hempty.
      destruct (url_Parse (LogReadURL p)) as [u | e2] eqn:Hparse;
        unfold ret, fail; split.
      * intros H. discriminate H.
      * intros [H | [(q & Hq & Hurl & _) | (q & e0 & Hq & _ & Hp & _)]].
        -- discriminate H.
        -- inversion Hq; subst. contradiction.
        -- inversion Hq; subst. congruence.
      * intros H. inversion H; subst. right; right. exists p, e2. auto.
      * intros [H | [(q & Hq & Hurl & _) | (q & e0 & Hq & _ & Hp & He)]].
        -- discriminate H.
        -- inversion Hq; subst. contradiction.
        -- inversion Hq; subst. congruence.
  - rewrite (Logs_on_Read_error _ _ HRead). split.
    + intros H. inversion H; subst. left. reflexivity.
    + intros [H | [(q & Hq & _) | (q & e0 & Hq & _)]];
        [ inversion H; subst; reflexivity
        | discriminate Hq | discriminate Hq ].
Qed.

Lemma Logs_world (planID : string) (w : World) :
  snd (Logs planID w) = snd (Read planID w).
Proof.
  destruct (Read planID w) as [[p | e] w1] eqn:HRead.
  - rewrite (Logs_after_Read _ _ HRead).
    destruct (LogReadURL p =? "")%string; [ reflexivity | ].
    destruct (url_Parse (LogReadURL p)); reflexivity.
  - rewrite (Logs_on_Read_error _ _ HRead). reflexivity.
Qed.

(** X4: whatever its outcome, [Logs] leaves the world exactly as a single
    [Read] of the same identifier does: building the stream costs that one
    read and fetches nothing of the log. *)
Theorem Logs_costs_one_Read (planID : string) (w : World) :
  snd (Logs planID w) = snd (Read planID w)
  /\ chunk_fetches (snd (Logs planID w)) = chunk_fetches w.
Proof.
  split.
  - apply Logs_world.
  - rewrite Logs_world. apply Read_chunk_fetches.
Qed.

(** X5: [Logs] returns a reader exactly when the plan was read, its log
    location is not empty and parses; the log location of that reader is the
    parsed one and its completion check is [done] for the plan that was
    read. *)
Theorem Logs_Ok_iff (planID : string) (r : LogReader) (w w' : World) :
  Logs planID w = (Ok r, w') <->
  exists p u,
    Read planID w = (Ok p, w') /\
    LogReadURL p <> "" /\
    url_Parse (LogReadURL p) = Ok u /\
    r = {| lr_done := done p; lr_logURL := u;
           lr_offset := 0; lr_terminal := false |}.
Proof.
  split.
  - intros HLogs.
    destruct (Read planID w) as [[p | e] w0] eqn:HRead.
    2:{ rewrite (Logs_on_Read_error _ _ HRead) in HLogs. discriminate HLogs. }
    rewrite (Logs_after_Read _ _ HRead) in HLogs.
    destruct (LogReadURL p =? "")%string eqn:Hempty; [ discriminate HLogs | ].
    destruct (url_Parse (LogReadURL p)) as [u | e] eqn:Hparse;
      [ | discriminate HLogs ].
    unfold ret in HLogs. inversion HLogs; subst.
    exists p, u.
    split; [ reflexivity | ].
    split; [ | split; [ exact Hparse | reflexivity ] ].
    intros Heq. rewrite Heq in Hempty. discriminate Hempty.
  - intros (p & u & HRead & Hne & Hparse & Hr). subst r.
    rewrite (Logs_after_Read _ _ HRead), Hparse.
    destruct (LogReadURL p =? "")%string eqn:Hempty; [ | reflexivity ].
    apply String.eqb_eq in Hempty. contradiction.
Qed.

(** ** The completion check *)

(** X6: the check has three answers, [(true, nil)], [(false, nil)] and
    [(false, e)]: it never answers true together with an error; and it leaves
    the world as one [Read] of the captured plan's identifier does. *)
Theorem done_answers (p : Plan) (w : World) :
  (fst (done p w) = (true, None) \/
   fst (done p w) = (false, None) \/
   exists e, fst (done p w) = (false, Some e))
  /\ snd (done p w) = snd (Read (ID p) w).
Proof.
  unfold done. destruct (Read (ID p) w) as [[q | e] w1].
  - destruct (status_in _ (Status q)); cbn [fst snd]; auto.
  - cbn [fst snd]. split; [ | reflexivity ]. right; right. exists e. reflexivity.
Qed.

(** X7: when the identifier of the captured plan fails validation, the check
    answers [(false, ErrInvalidPlanID)] and sends nothing. *)
Theorem done_invalid_record_id (p : Plan) (w : World) :
  validStringID (ID p) = false ->
  done p w = ((false, Some ErrInvalidPlanID), w).
Proof.
  intros Hid. unfold done. rewrite (Read_invalid _ w Hid). reflexivity.
Qed.

(** ** The two JSON reads, case by case *)

Lemma ReadJSONOutput_valid (planID : string) (req : Request) (w : World) :
  validStringID planID = true ->
  NewRequest "GET" ("plans/" ++ QueryEscape planID ++ "/json-output") = Ok req ->
  ReadJSONOutput planID w =
    (fst (doRaw req (remote w)),
     sent (ApiRequest req) (snd (doRaw req (remote w))) w).
Proof.
  intros Hid Hreq. unfold ReadJSONOutput. rewrite Hid. cbn [negb].
  unfold bind, lift. rewrite Hreq, Do_raw_run.
  destruct (doRaw req (remote w)) as [[b | e] s]; reflexivity.
Qed.

Lemma ReadJSONOutput_request_error (planID : string) (e : error) (w : World) :
  validStringID planID = true ->
  NewRequest "GET" ("plans/" ++ QueryEscape planID ++ "/json-output") = Err e ->
  ReadJSONOutput planID w = (Err e, w).
Proof.
  intros Hid Hreq. unfold ReadJSONOutput, bind, lift.
  rewrite Hid, Hreq. reflexivity.
Qed.

Lemma ReadJSONOutput_invalid (planID : string) (w : World) :
  validStringID planID = false ->
  ReadJSONOutput planID w = (Err ErrInvalidPlanID, w).
Proof.
  intros Hid. unfold ReadJSONOutput. rewrite Hid. reflexivity.
Qed.

(** X8: [ReadJSONOutput] fails with [e] in exactly three ways: an invalid
    identifier ([ErrInvalidPlanID]) or a request that could not be built,
    both with the world left as it was; or a call of [req.Do] that failed
    with [e].  The content of a body that did come back is never a reason. *)
Theorem ReadJSONOutput_Err_iff (planID : string) (e : error) (w w' : World) :
  ReadJSONOutput planID w = (Err e, w') <->
  (validStringID planID = false /\ e = ErrInvalidPlanID /\ w' = w)
  \/
  (validStringID planID = true /\
   NewRequest "GET" ("plans/" ++ QueryEscape planID ++ "/json-output") = Err e /\
   w' = w)
  \/
  (validStringID planID = true /\
   exists req s,
     NewRequest "GET" ("plans/" ++ QueryEscape planID ++ "/json-output") = Ok req /\
     doRaw req (remote w) = (Err e, s) /\
     w' = sent (ApiRequest req) s w).
Proof.
  destruct (validStringID planID) eqn:Hid.
  - destruct (NewRequest "GET" ("plans/" ++ QueryEscape planID ++ "/json-output"))
      as [req | e0] eqn:Hreq.
    + rewrite (ReadJSONOutput_valid _ w Hid Hreq).
      destruct (doRaw req (remote w)) as [[b | e1] s] eqn:Hdo;
        cbn [fst snd]; split.
      * intros H. discriminate H.
      * intros [(H & _) | [(_ & H & _) | (_ & r & s' & Hr & Hd & _)]];
          try discriminate H.
        assert (r = req) by congruence. subst r. congruence.
      * intros H. inversion H; subst. right; right.
        split; [ reflexivity | ]. exists req, s. auto.
      * intros [(H & _) | [(_ & H & _) | (_ & r & s' & Hr & Hd & Hw)]];
          try discriminate H.
        assert (r = req) by congruence. subst r. congruence.
    + rewrite (ReadJSONOutput_request_error _ w Hid Hreq). split.
      * intros H. inversion H; subst. right; left. auto.
      * intros [(H & _) | [(_ & H & Hw) | (_ & r & s' & Hr & _)]];
          try discriminate.
        inversion H; subst. reflexivity.
  - rewrite (ReadJSONOutput_invalid _ w Hid). split.
    + intros H. inversion H; subst. left. auto.
    + intros [(_ & He & Hw) | [(H & _) | (H & _)]]; try discriminate H.
      subst. reflexivity.
Qed.

Lemma ReadJSONOutput_world (planID : string) (w : World) :
  at_most_one_request w (snd (ReadJSONOutput planID w)).
Proof.
  destruct (validStringID planID) eqn:Hid.
  - destruct (NewRequest "GET" ("plans/" ++ QueryEscape planID ++ "/json-output"))
      as [req | e] eqn:Hreq.
    + rewrite (ReadJSONOutput_valid _ w Hid Hreq). right.
      exists req, (snd (doRaw req (remote w))). reflexivity.
    + rewrite (ReadJSONOutput_request_error _ w Hid Hreq). left. reflexivity.
  - rewrite (ReadJSONOutput_invalid _ w Hid). left. reflexivity.
Qed.

(** X9: [ReadJSONOutput] returns a body exactly when the identifier is valid,
    the request for [plans/<escaped id>/json-output] could be built and
    [req.Do] on it gave that very body. *)
Theorem ReadJSONOutput_Ok_iff
  (planID : string) (body : list byte) (w w' : World) :
  ReadJSONOutput planID w = (Ok body, w') <->
  validStringID planID = true /\
  exists req s,
    NewRequest "GET" ("plans/" ++ QueryEscape planID ++ "/json-output") = Ok req /\
    doRaw req (remote w) = (Ok body, s) /\
    w' = sent (ApiRequest req) s w.
Proof.
  destruct (validStringID planID) eqn:Hid.
  - destruct (NewRequest "GET" ("plans/" ++ QueryEscape planID ++ "/json-output"))
      as [req | e0] eqn:Hreq.
    + rewrite (ReadJSONOutput_valid _ w Hid Hreq).
      destruct (doRaw req (remote w)) as [[b | e1] s] eqn:Hdo;
        cbn [fst snd]; split.
      * intros H. inversion H; subst. split; [ reflexivity | ].
        exists req, s. auto.
      * intros (_ & r & s' & Hr & Hd & Hw).
        assert (r = req) by congruence. subst r. congruence.
      * intros H. discriminate H.
      * intros (_ & r & s' & Hr & Hd & Hw).
        assert (r = req) by congruence. subst r. congruence.
    + rewrite (ReadJSONOutput_request_error _ w Hid Hreq). split.
      * intros H. discriminate H.
      * intros (_ & r & s' & Hr & _). discriminate Hr.
  - rewrite (ReadJSONOutput_invalid _ w Hid). split.
    + intros H. discriminate H.
    + intros (H & _). discriminate H.
Qed.

Lemma ReadResourceChanges_valid (planID : string) (req : Request) (w : World) :
  validStringID planID = true ->
  NewRequest "GET" ("plans/" ++ QueryEscape planID ++ "/json-output-redacted")
    = Ok req ->
  ReadResourceChanges planID w =
    (match fst (doRaw req (remote w)) with
     | Ok body => json_Unmarshal body
     | Err e => Err e
     end,
     sent (ApiRequest req) (snd (doRaw req (remote w))) w).
Proof.
  intros Hid Hreq. unfold ReadResourceChanges. rewrite Hid. cbn [negb].
  unfold bind, lift. rewrite Hreq, Do_raw_run.
  destruct (doRaw req (remote w)) as [[b | e] s]; cbn [fst snd];
    [ | reflexivity ].
  destruct (json_Unmarshal b); reflexivity.
Qed.

Lemma ReadResourceChanges_request_error
      (planID : string) (e : error) (w : World) :
  validStringID planID = true ->
  NewRequest "GET" ("plans/" ++ QueryEscape planID ++ "/json-output-redacted")
    = Err e ->
  ReadResourceChanges planID w = (Err e, w).
Proof.
  intros Hid Hreq. unfold ReadResourceChanges, bind, lift.
  rewrite Hid, Hreq. reflexivity.
Qed.

Lemma ReadResourceChanges_invalid (planID : string) (w : World) :
  validStringID planID = false ->
  ReadResourceChanges planID w = (Err ErrInvalidPlanID, w).
Proof.
  intros Hid. unfold ReadResourceChanges. rewrite Hid. reflexivity.
Qed.

Lemma ReadResourceChanges_world (planID : string) (w : World) :
  at_most_one_request w (snd (ReadResourceChanges planID w)).
Proof.
  destruct (validStringID planID) eqn:Hid.
  - destruct (NewRequest "GET"
                ("plans/" ++ QueryEscape planID ++ "/json-output-redacted"))
      as [req | e] eqn:Hreq.
    + rewrite (ReadResourceChanges_valid _ w Hid Hreq). right.
      exists req, (snd (doRaw req (remote w))). reflexivity.
    + rewrite (ReadResourceChanges_request_error _ w Hid Hreq).
      left. reflexivity.
  - rewrite (ReadResourceChanges_invalid _ w Hid). left. reflexivity.
Qed.

(** X10: [ReadResourceChanges] returns resource changes exactly when the
    identifier is valid, the request for
    [plans/<escaped id>/json-output-redacted] could be built, [req.Do] on it
    gave a body, and that body decodes to what is returned. *)
Theorem ReadResourceChanges_Ok_iff
  (planID : string) (rc : PlanResourceChanges) (w w' : World) :
  ReadResourceChanges planID w = (Ok rc, w') <->
  validStringID planID = true /\
  exists req body s,
    NewRequest "GET" ("plans/" ++ QueryEscape planID ++ "/json-output-redacted")
      = Ok req /\
    doRaw req (remote w) = (Ok body, s) /\
    json_Unmarshal body = Ok rc /\
    w' = sent (ApiRequest req) s w.
Proof.
  destruct (validStringID planID) eqn:Hid.
  - destruct (NewRequest "GET"
                ("plans/" ++ QueryEscape planID ++ "/json-output-redacted"))
      as [req | e0] eqn:Hreq.
    + rewrite (ReadResourceChanges_valid _ w Hid Hreq).
      destruct (doRaw req (remote w)) as [[b | e1] s] eqn:Hdo;
        cbn [fst snd]; split.
      * intros H. inversion H; subst. split; [ reflexivity | ].
        exists req, b, s. auto.
      * intros (_ & r & b' & s' & Hr & Hd & Hj & Hw).
        assert (r = req) by congruence. subst r.
        assert (b' = b) by congruence. subst b'. congruence.
      * intros H. discriminate H.
      * intros (_ & r & b' & s' & Hr & Hd & _).
        assert (r = req) by congruence. subst r. congruence.
    + rewrite (ReadResourceChanges_request_error _ w Hid Hreq). split.
      * intros H. discriminate H.
      * intros (_ & r & b' & s' & Hr & _). discriminate Hr.
  - rewrite (ReadResourceChanges_invalid _ w Hid). split.
    + intros H. discriminate H.
    + intros (H & _). discriminate H.
Qed.

(** X11: [ReadResourceChanges] fails with [e] in exactly four ways: an
    invalid identifier ([ErrInvalidPlanID]) or a request that could not be
    built, both with the world left as it was; a call of [req.Do] that failed
    with [e]; or a body that [req.Do] gave and that does not decode, with the
    decoder's error. *)
Theorem ReadResourceChanges_Err_iff
  (planID : string) (e : error) (w w' : World) :
  ReadResourceChanges planID w = (Err e, w') <->
  (validStringID planID = false /\ e = ErrInvalidPlanID /\ w' = w)
  \/
  (validStringID planID = true /\
   NewRequest "GET" ("plans/" ++ QueryEscape planID ++ "/json-output-redacted")
     = Err e /\
   w' = w)
  \/
  (validStringID planID = true /\
   exists req s,
     NewRequest "GET"
       ("plans/" ++ QueryEscape planID ++ "/json-output-redacted") = Ok req /\
     doRaw req (remote w) = (Err e, s) /\
     w' = sent (ApiRequest req) s w)
  \/
  (validStringID planID = true /\
   exists req body s,
     NewRequest "GET"
       ("plans/" ++ QueryEscape planID ++ "/json-output-redacted") = Ok req /\
     doRaw req (remote w) = (Ok body, s) /\
     json_Unmarshal body = Err e /\
     w' = sent (ApiRequest req) s w).
Proof.
  destruct (validStringID planID) eqn:Hid.
  - destruct (NewRequest "GET"
                ("plans/" ++ QueryEscape planID ++ "/json-output-redacted"))
      as [req | e0] eqn:Hreq.
    + rewrite (ReadResourceChanges_valid _ w Hid Hreq).
      destruct (doRaw req (remote w)) as [[b | e1] s] eqn:Hdo;
        cbn [fst snd]; split.
      * intros H. right; right; right. split; [ reflexivity | ].
        exists req, b, s. inversion H; subst. auto.
      * intros [(H & _) | [(_ & H & _) |
                [(_ & r & s' & Hr & Hd & _) |
                 (_ & r & b' & s' & Hr & Hd & Hj & Hw)]]];
          try discriminate H.
        -- assert (r = req) by congruence. subst r. congruence.
        -- assert (r = req) by congruence. subst r.
           assert (b' = b) by congruence. subst b'. congruence.
      * intros H. inversion H; subst. right; right; left.
        split; [ reflexivity | ]. exists req, s. auto.
      * intros [(H & _) | [(_ & H & _) |
                [(_ & r & s' & Hr & Hd & Hw) |
                 (_ & r & b' & s' & Hr & Hd & _)]]];
          try discriminate H.
        -- assert (r = req) by congruence. subst r. congruence.
        -- assert (r = req) by congruence. subst r. congruence.
    + rewrite (ReadResourceChanges_request_error _ w Hid Hreq). split.
      * intros H. inversion H; subst. right; left. auto.
      * intros [(H & _) | [(_ & H & Hw) |
                [(_ & r & s' & Hr & _) | (_ & r & b' & s' & Hr & _)]]];
          try discriminate.
        inversion H; subst. reflexivity.
  - rewrite (ReadResourceChanges_invalid _ w Hid). split.
    + intros H. inversion H; subst. left. auto.
    + intros [(_ & He & Hw) | [(H & _) | [(H & _) | (H & _)]]];
        try discriminate H.
      subst. reflexivity.
Qed.

(** ** Traffic *)

Lemma Read_world (planID : string) (w : World) :
  at_most_one_request w (snd (Read planID w)).
Proof.
  destruct (validStringID planID) eqn:Hid.
  - destruct (NewRequest "GET" ("plans/" ++ QueryEscape planID))
      as [req | e] eqn:Hreq.
    + rewrite (Read_valid _ w Hid Hreq). right.
      exists req, (snd (doResource req (remote w))). reflexivity.
    + rewrite (Read_request_error _ w Hid Hreq). left. reflexivity.
  - rewrite (Read_invalid _ w Hid). left. reflexivity.
Qed.

Lemma done_world (p : Plan) (w : World) :
  snd (done p w) = snd (Read (ID p) w).
Proof.
  unfold done. destruct (Read (ID p) w) as [[q | e] w1]; [ | reflexivity ].
  destruct (status_in _ (Status q)); reflexivity.
Qed.

(** X12: a call of [Read], [Logs], [ReadJSONOutput], [ReadResourceChanges] or
    of the completion check either leaves the world untouched or makes one
    call of [req.Do] and nothing else: none of them calls [req.Do] twice and
    none calls the log store. *)
Theorem one_call_one_request_at_most (planID : string) (p : Plan) (w : World) :
  at_most_one_request w (snd (Read planID w)) /\
  at_most_one_request w (snd (Logs planID w)) /\
  at_most_one_request w (snd (ReadJSONOutput planID w)) /\
  at_most_one_request w (snd (ReadResourceChanges planID w)) /\
  at_most_one_request w (snd (done p w)).
Proof.
  split; [ apply Read_world | ].
  split; [ rewrite Logs_world; apply Read_world | ].
  split; [ apply ReadJSONOutput_world | ].
  split; [ apply ReadResourceChanges_world | ].
  rewrite done_world. apply Read_world.
Qed.

End MethodFacts.

(** X7 at work: the records of the service carry no identifier. *)
Lemma done_invalid_record_id_witness :
  done (Sample.record_of Sample.nameless) (Sample.fresh Sample.nameless)
  = ((false, Some ErrInvalidPlanID), Sample.fresh Sample.nameless).
Proof.
  apply (@done_invalid_record_id Sample.collaborators
           (Sample.record_of Sample.nameless) (Sample.fresh Sample.nameless)).
  reflexivity.
Defined.
